(** * Forward step of the Megatron text-generation inference loop

    Shallow embedding of [megatron/inference/text_generation/forward_step.py]:
    the class [ForwardStep] (its [__call__], [_forward_step_helper],
    [_no_pipelining_forward_step] and [_with_pipelining_forward_step]) and the
    module functions [_get_recv_buffer_dtype] and [_allocate_recv_buffer].

    Tensors are modelled by their shape and dtype; the model, the topology
    queries of [mpu] and the point-to-point transport are external
    collaborators gathered in the record [env].  The mutable
    [inference_context] and an event log of the observable effects
    (receive, forward, send, offset writes, logits copies) form the state of
    a small state-and-exception monad; as in Python, an exception keeps the
    state reached at the point where it is raised. *)

From Stdlib Require Import ZArith List Lia Bool.
Import ListNotations.

(** ** Data model *)

Inductive dtype : Type :=
| torch_float32
| torch_float16
| torch_bfloat16.

(** A tensor: its shape and its dtype (contents are left abstract). *)
Record tensor : Type := mkTensor {
  t_shape : list nat;
  t_dtype : dtype
}.

Definition numel (t : tensor) : nat := fold_right Nat.mul 1 (t_shape t).

(** [torch.empty(size, dtype=...)]: an uninitialised tensor. *)
Definition torch_empty (size : list nat) (d : dtype) : tensor := mkTensor size d.

(** A two-dimensional integer tensor ([tokens], [position_ids]): its rows
    and its second dimension, which is kept even when there are no rows. *)
Record batch2d : Type := mkBatch2d {
  b_rows : list (list Z);
  b_width : nat
}.

(** [t.size(0)] and [t.size(1)]. *)
Definition size0 (t : batch2d) : nat := length (b_rows t).
Definition size1 (t : batch2d) : nat := b_width t.

(** [t[start:end, ...]] (Python slicing clamps out-of-range bounds). *)
Definition slice_rows (t : batch2d) (start end_ : nat) : batch2d :=
  mkBatch2d (firstn (end_ - start) (skipn start (b_rows t))) (b_width t).

(** The result of the model callable: a tensor or a tuple whose first
    element is the activation. *)
Inductive model_output : Type :=
| OutTensor (t : tensor)
| OutTuple (t : tensor) (rest : list tensor).

(** The fields of [get_args()] read by the module. *)
Record arguments : Type := mkArguments {
  pipeline_model_parallel_size : nat;
  inference_batch_times_seqlen_threshold : Z;
  hidden_size : nat;
  padded_vocab_size : nat;
  fp32_residual_connection : bool;
  params_dtype : dtype
}.

(** The [BaseInferenceContext] offsets. *)
Record context : Type := mkContext {
  sequence_len_offset : Z;
  batch_size_offset : Z
}.

(** External collaborators: the arguments, the stage queries of [mpu],
    the model callable (which receives the input tensor set by
    [set_input_tensor], the inference context, tokens, position ids and
    attention mask; [None] when it raises), and the transport
    ([recv_from_prev_pipeline_rank_] fills the buffer or raises,
    [send_to_next_pipeline_rank] succeeds or raises). *)
Record env : Type := mkEnv {
  args : arguments;
  is_pipeline_first_stage : bool;
  is_pipeline_last_stage : bool;
  model_forward : option tensor -> context -> batch2d -> batch2d -> tensor ->
                  option model_output;
  recv_from_prev_pipeline_rank_ : tensor -> option tensor;
  send_to_next_pipeline_rank : tensor -> bool
}.

(** Observable effects, in the order they happen. *)
Inductive event : Type :=
| EvRecv (shape : list nat)
| EvForward (observed : context) (rows : nat)
| EvSend (shape : list nat)
| EvSetBatchSizeOffset (v : Z)
| EvSetSequenceLenOffset (v : Z)
| EvCopyLogits (start end_ : nat).

Inductive exn : Type :=
| ZeroDivisionError
| TransportError
| ModelError
| ShapeError
| TypeError.

Inductive result (A : Type) : Type :=
| Ok (a : A)
| Raise (e : exn).
Arguments Ok {A} a.
Arguments Raise {A} e.

Record state : Type := mkState {
  st_ctx : context;
  st_trace : list event
}.

(** ** A state monad with Python-style exceptions *)

Module StM.

Definition M (A : Type) : Type := state -> result A * state.

Definition ret {A} (a : A) : M A := fun s => (Ok a, s).

Definition bind {A B} (m : M A) (k : A -> M B) : M B :=
  fun s => match m s with
           | (Ok a, s') => k a s'
           | (Raise e, s') => (Raise e, s')
           end.

Definition raise {A} (e : exn) : M A := fun s => (Raise e, s).

Definition emit (ev : event) : M unit :=
  fun s => (Ok tt, mkState (st_ctx s) (st_trace s ++ [ev])).

Definition get_ctx : M context := fun s => (Ok (st_ctx s), s).

(** [self.inference_context.batch_size_offset = v] *)
Definition set_batch_size_offset (v : Z) : M unit :=
  fun s => (Ok tt, mkState (mkContext (sequence_len_offset (st_ctx s)) v)
                           (st_trace s ++ [EvSetBatchSizeOffset v])).

(** [self.inference_context.sequence_len_offset = v] *)
Definition set_sequence_len_offset (v : Z) : M unit :=
  fun s => (Ok tt, mkState (mkContext v (batch_size_offset (st_ctx s)))
                           (st_trace s ++ [EvSetSequenceLenOffset v])).

End StM.

Import StM.

Declare Scope stm_scope.
Notation "x <- m ;; k" := (bind m (fun x => k))
  (at level 61, m at next level, right associativity) : stm_scope.
Notation "m ;; k" := (bind m (fun _ : unit => k))
  (at level 61, right associativity) : stm_scope.
Open Scope stm_scope.

(** ** Module functions *)

(** [_get_recv_buffer_dtype(args)] *)
Definition _get_recv_buffer_dtype (a : arguments) : dtype :=
  if fp32_residual_connection a then torch_float32 else params_dtype a.

(** [_allocate_recv_buffer(batch_size, sequence_length)]: shape [s, b, h]. *)
Definition _allocate_recv_buffer (e : env) (batch_size sequence_length : nat)
  : option tensor :=
  if is_pipeline_first_stage e then None
  else
    let a := args e in
    let recv_size := [sequence_length; batch_size; hidden_size a] in
    Some (torch_empty recv_size (_get_recv_buffer_dtype a)).

(** Python's [a // b] on integers. *)
Definition py_floordiv (a b : Z) : M Z :=
  if Z.eqb b 0 then raise ZeroDivisionError else ret (Z.div a b).

(** Assignment [dst[...] = src] accepts a [src] whose shape, after its
    leading dimensions of size 1 are dropped, broadcasts to [dst]'s. *)
Fixpoint strip_leading_ones (l : list nat) : list nat :=
  match l with
  | 1 :: r => strip_leading_ones r
  | _ => l
  end.

Fixpoint broadcast_rev (s d : list nat) : bool :=
  match s, d with
  | [], _ => true
  | _ :: _, [] => false
  | a :: s', b :: d' => (Nat.eqb a b || Nat.eqb a 1) && broadcast_rev s' d'
  end.

Definition broadcastable_to (src dst : list nat) : bool :=
  broadcast_rev (rev (strip_leading_ones src)) (rev dst).

(** [logits[start:end, ...] = output] *)
Definition copy_logits (logits : option tensor) (start end_ : nat)
  (output : tensor) : M unit :=
  match logits with
  | None => raise TypeError
  | Some l =>
      match t_shape l with
      | [] => raise ShapeError
      | b :: rest =>
          if broadcastable_to (t_shape output) ((Nat.min end_ b - start) :: rest)
          then emit (EvCopyLogits start end_)
          else raise ShapeError
      end
  end.

(** ** The class [ForwardStep] *)

Module ForwardStep.

Section WithEnv.

Variable e : env.

(** Set in [__init__]. *)
Definition pipeline_size_larger_than_one : bool :=
  Nat.ltb 1 (pipeline_model_parallel_size (args e)).

Definition pipelining_batch_x_seqlen : Z :=
  inference_batch_times_seqlen_threshold (args e).

(** [_forward(tokens, position_ids, attention_mask)]: the model reads the
    inference context and the input tensor last set on it. *)
Definition _forward (input_tensor : option tensor) (tokens position_ids : batch2d)
  (attention_mask : tensor) : M model_output :=
  c <- get_ctx ;;
  match model_forward e input_tensor c tokens position_ids attention_mask with
  | None => raise ModelError
  | Some out => emit (EvForward c (size0 tokens)) ;; ret out
  end.

Definition recv_from_prev (buf : tensor) : M tensor :=
  match recv_from_prev_pipeline_rank_ e buf with
  | None => raise TransportError
  | Some filled => emit (EvRecv (t_shape buf)) ;; ret filled
  end.

Definition send_to_next (t : tensor) : M unit :=
  if send_to_next_pipeline_rank e t then emit (EvSend (t_shape t))
  else raise TransportError.

(** [_forward_step_helper]: the receive fills the buffer in place, which
    is modelled by continuing with the filled buffer. *)
Definition _forward_step_helper (tokens position_ids : batch2d)
  (attention_mask : tensor) (recv_buffer : option tensor) : M tensor :=
  let batch_size := size0 tokens in
  let sequence_length := size1 tokens in
  let recv_buffer :=
    match recv_buffer with
    | None => _allocate_recv_buffer e batch_size sequence_length
    | Some b => Some b
    end in
  recv_buffer <-
    match recv_buffer with
    | Some b => if Nat.ltb 0 (numel b)
                then b' <- recv_from_prev b ;; ret (Some b')
                else ret (Some b)
    | None => ret None
    end ;;
  let input_tensor :=
    if negb (is_pipeline_first_stage e) then recv_buffer else None in
  out <- _forward input_tensor tokens position_ids attention_mask ;;
  let output_tensor :=
    match out with
    | OutTensor t => t
    | OutTuple t _ => t
    end in
  send_to_next output_tensor ;;
  ret output_tensor.

(** [_no_pipelining_forward_step] *)
Definition _no_pipelining_forward_step (tokens position_ids : batch2d)
  (attention_mask : tensor) (recv_buffer : option tensor) : M (option tensor) :=
  output_tensor <- _forward_step_helper tokens position_ids attention_mask recv_buffer ;;
  c <- get_ctx ;;
  set_sequence_len_offset (sequence_len_offset c + Z.of_nat (size1 tokens))%Z ;;
  ret (if is_pipeline_last_stage e then Some output_tensor else None).

(** [divmod(batch_size, micro_batch_size)], rounded up. *)
Definition num_micro_batches (batch_size micro_batch_size : nat) : nat :=
  let num := batch_size / micro_batch_size in
  let last_chunk := batch_size mod micro_batch_size in
  if Nat.ltb 0 last_chunk then S num else num.

(** The body of [for micro_batch_index in range(num_micro_batches)]. *)
Fixpoint micro_batch_loop (tokens position_ids : batch2d) (attention_mask : tensor)
  (batch_size micro_batch_size : nat) (logits : option tensor)
  (indices : list nat) (recv_buffer : option tensor) : M (option tensor) :=
  match indices with
  | [] => ret logits
  | micro_batch_index :: rest =>
      let start := micro_batch_index * micro_batch_size in
      let end_ := Nat.min (start + micro_batch_size) batch_size in
      let this_micro_batch_size := end_ - start in
      let tokens2use := slice_rows tokens start end_ in
      let position_ids2use := slice_rows position_ids start end_ in
      let recv_buffer :=
        if Nat.eqb this_micro_batch_size micro_batch_size then recv_buffer else None in
      output <- _forward_step_helper tokens2use position_ids2use attention_mask recv_buffer ;;
      c <- get_ctx ;;
      set_batch_size_offset (batch_size_offset c + Z.of_nat this_micro_batch_size)%Z ;;
      (if is_pipeline_last_stage e then copy_logits logits start end_ output
       else ret tt) ;;
      micro_batch_loop tokens position_ids attention_mask batch_size
        micro_batch_size logits rest recv_buffer
  end.

(** [_with_pipelining_forward_step] *)
Definition _with_pipelining_forward_step (tokens position_ids : batch2d)
  (attention_mask : tensor) (micro_batch_size : nat)
  (recv_buffer_seq_length : option nat) : M (option tensor) :=
  let batch_size := size0 tokens in
  let sequence_length :=
    match recv_buffer_seq_length with
    | None => size1 tokens
    | Some r => r
    end in
  if Nat.eqb micro_batch_size 0 then raise ZeroDivisionError else
  let n := num_micro_batches batch_size micro_batch_size in
  let logits :=
    if is_pipeline_last_stage e
    then Some (torch_empty [batch_size; sequence_length; padded_vocab_size (args e)]
                 torch_float32)
    else None in
  let recv_buffer := _allocate_recv_buffer e micro_batch_size sequence_length in
  logits <- micro_batch_loop tokens position_ids attention_mask batch_size
              micro_batch_size logits (seq 0 n) recv_buffer ;;
  c <- get_ctx ;;
  set_sequence_len_offset (sequence_len_offset c + Z.of_nat (size1 tokens))%Z ;;
  set_batch_size_offset 0%Z ;;
  ret logits.

(** [__call__(tokens, position_ids, attention_mask, recv_buffer_seq_length)] *)
Definition call (tokens position_ids : batch2d) (attention_mask : tensor)
  (recv_buffer_seq_length : option nat) : M (option tensor) :=
  let no_pipelining :=
    let recv_buffer :=
      match recv_buffer_seq_length with
      | None => None
      | Some r => _allocate_recv_buffer e (size0 tokens) r
      end in
    _no_pipelining_forward_step tokens position_ids attention_mask recv_buffer in
  if pipeline_size_larger_than_one && negb (Z.eqb pipelining_batch_x_seqlen (-1)%Z) then
    let seq_len :=
      match recv_buffer_seq_length with
      | None => size1 tokens
      | Some r => r
      end in
    let current_batch_x_seqlen := (Z.of_nat (size0 tokens) * Z.of_nat seq_len)%Z in
    if Z.leb pipelining_batch_x_seqlen current_batch_x_seqlen then
      q <- py_floordiv pipelining_batch_x_seqlen (Z.of_nat seq_len) ;;
      let micro_batch_size := Z.max 1 q in
      _with_pipelining_forward_step tokens position_ids attention_mask
        (Z.to_nat micro_batch_size) recv_buffer_seq_length
    else no_pipelining
  else no_pipelining.

End WithEnv.

End ForwardStep.

(** ** Reading the event log *)

Definition is_send (ev : event) : bool :=
  match ev with EvSend _ => true | _ => false end.

(** The values written to [batch_size_offset], in order. *)
Definition bso_writes (tr : list event) : list Z :=
  flat_map (fun ev => match ev with EvSetBatchSizeOffset v => [v] | _ => [] end) tr.

(** The values written to [sequence_len_offset], in order. *)
Definition slo_writes (tr : list event) : list Z :=
  flat_map (fun ev => match ev with EvSetSequenceLenOffset v => [v] | _ => [] end) tr.

(** The shapes of the buffers received into, in order. *)
Definition recv_shapes (tr : list event) : list (list nat) :=
  flat_map (fun ev => match ev with EvRecv shp => [shp] | _ => [] end) tr.

(** The row ranges copied into the logits buffer, in order. *)
Definition copy_ranges (tr : list event) : list (nat * nat) :=
  flat_map (fun ev => match ev with EvCopyLogits st en => [(st, en)] | _ => [] end) tr.

(** The number of rows of each forward pass, in order. *)
Definition forward_rows (tr : list event) : list nat :=
  flat_map (fun ev => match ev with EvForward _ n => [n] | _ => [] end) tr.

(** The receives one forward step performs when handed [rb]: the buffer
    it uses (the given one, or one allocated for the slice) is received
    into when it exists and is non-empty. *)
Definition step_recv_shapes (e : env) (tokens : batch2d) (rb : option tensor)
  : list (list nat) :=
  match match rb with
        | None => _allocate_recv_buffer e (size0 tokens) (size1 tokens)
        | Some b => Some b
        end with
  | Some b => if Nat.ltb 0 (numel b) then [t_shape b] else []
  | None => []
  end.

(** Events with no send and no write to the inference context. *)
Definition quiet (tr : list event) : Prop :=
  filter is_send tr = [] /\ bso_writes tr = [] /\ slo_writes tr = [].

(** The optional receive that starts a forward step. *)
Definition recv_part (r : list event) : Prop :=
  r = [] \/ exists shp, r = [EvRecv shp].

(** The optional logits copy that ends a micro-batch. *)
Definition copy_part (start end_ : nat) (cp : list event) : Prop :=
  cp = [] \/ cp = [EvCopyLogits start end_].

(** The micro-batch ranges [[start, end)] of [_with_pipelining_forward_step]. *)
Definition micro_batch_range (batch_size micro_batch_size i : nat) : nat * nat :=
  (i * micro_batch_size, Nat.min (i * micro_batch_size + micro_batch_size) batch_size).

Definition micro_batch_plan (batch_size micro_batch_size : nat) : list (nat * nat) :=
  map (micro_batch_range batch_size micro_batch_size)
      (seq 0 (ForwardStep.num_micro_batches batch_size micro_batch_size)).

Definition range_size (r : nat * nat) : nat := snd r - fst r.

(** The log of a run of micro-batches [ranges] that all complete, for an
    invocation entered with offsets [slo] and [b0]: per micro-batch, the
    optional receive, the forward pass (which observes the batch offset
    [b0 + start]), the send, the write [batch_size_offset = b0 + end], and
    the optional logits copy. *)
Inductive chunk_trace (slo b0 : Z) : list (nat * nat) -> list event -> Prop :=
| ct_nil : chunk_trace slo b0 [] []
| ct_cons : forall start end_ rest r shp cp tr,
    recv_part r ->
    copy_part start end_ cp ->
    chunk_trace slo b0 rest tr ->
    chunk_trace slo b0 ((start, end_) :: rest)
      (r ++ [EvForward (mkContext slo (b0 + Z.of_nat start)%Z) (end_ - start);
             EvSend shp;
             EvSetBatchSizeOffset (b0 + Z.of_nat end_)%Z] ++ cp ++ tr).

(** ** Sample configurations *)

(** A model that returns logits of shape [[rows, width, 16]]. *)
Definition sample_model (_ : option tensor) (_ : context) (tokens _ : batch2d)
  (_ : tensor) : option model_output :=
  Some (OutTensor (mkTensor [size0 tokens; size1 tokens; 16] torch_float32)).

(** The same model, raising when it observes [batch_size_offset = fail_at]. *)
Definition sample_failing_model (fail_at : Z) (inp : option tensor) (c : context)
  (tokens pos : batch2d) (mask : tensor) : option model_output :=
  if Z.eqb (batch_size_offset c) fail_at then None
  else sample_model inp c tokens pos mask.

Definition sample_args (pp : nat) (threshold : Z) : arguments :=
  mkArguments pp threshold 8 16 false torch_float16.

Definition sample_env (first last : bool) (pp : nat) (threshold : Z) : env :=
  mkEnv (sample_args pp threshold) first last sample_model
    (fun buf => Some buf) (fun _ => true).

(** A last stage whose model raises on the micro-batch that starts at
    batch offset 4. *)
Definition sample_failing_env : env :=
  mkEnv (sample_args 2 8) false true (sample_failing_model 4)
    (fun buf => Some buf) (fun _ => true).

Definition sample_tokens (rows width : nat) : batch2d :=
  mkBatch2d (repeat (repeat 1%Z width) rows) width.

Definition sample_mask : tensor := mkTensor [1; 1] torch_float32.

Definition sample_state : state := mkState (mkContext 0 0) [].

(** ** Proof automation *)

Ltac crush_run :=
  repeat (match goal with
          | H : (_, _) = (_, _) |- _ => injection H as ?; try subst
          | H : Ok _ = Ok _ |- _ => injection H as ?; try subst
          | H : Some _ = Some _ |- _ => injection H as ?; try subst
          | H : context [match ?x with _ => _ end] |- _ => destruct x eqn:?
          | H : context [if ?x then _ else _] |- _ => destruct x eqn:?
          end; simpl in *; try discriminate).

Ltac unfold_monad := unfold bind, ret, raise, emit, get_ctx,
  set_batch_size_offset, set_sequence_len_offset in *.

(** ** Lemmas on the forward step, the logits copy and the micro-batch loop *)

Ltac close_ext :=
  first [ exists []; rewrite app_nil_r; split; [reflexivity | unfold quiet; simpl; auto]
        | eexists; split; [rewrite <- ?app_assoc; reflexivity | unfold quiet; simpl; auto] ].

Lemma forward_step_helper_ok (e : env) : forall tokens pos mask rb s out s',
  ForwardStep._forward_step_helper e tokens pos mask rb s = (Ok out, s') ->
  st_ctx s' = st_ctx s /\
  exists r shp, recv_part r /\
    st_trace s' = st_trace s ++ r ++ [EvForward (st_ctx s) (size0 tokens); EvSend shp].
Proof.
  intros tokens pos mask rb [c tr] out s' H.
  unfold ForwardStep._forward_step_helper, ForwardStep._forward,
    ForwardStep.recv_from_prev, ForwardStep.send_to_next in H.
  unfold_monad. crush_run.
  all: split; [reflexivity |].
  all: first [ exists []; eexists; split; [left; reflexivity | rewrite <- !app_assoc; reflexivity]
             | eexists [EvRecv _]; eexists; split;
               [right; eexists; reflexivity | rewrite <- !app_assoc; reflexivity] ].
Qed.

Lemma forward_step_helper_raise (e : env) : forall tokens pos mask rb s ex s',
  ForwardStep._forward_step_helper e tokens pos mask rb s = (Raise ex, s') ->
  ex <> ZeroDivisionError /\ st_ctx s' = st_ctx s /\
  exists tr, st_trace s' = st_trace s ++ tr /\ quiet tr.
Proof.
  intros tokens pos mask rb [c tr] ex s' H.
  unfold ForwardStep._forward_step_helper, ForwardStep._forward,
    ForwardStep.recv_from_prev, ForwardStep.send_to_next in H.
  unfold_monad. crush_run.
  all: split; [discriminate | split; [reflexivity | close_ext]].
Qed.

Lemma num_micro_batches_start : forall B m k, 0 < m ->
  k < ForwardStep.num_micro_batches B m -> k * m < B.
Proof.
  intros B m k Hm Hk. unfold ForwardStep.num_micro_batches in Hk.
  pose proof (Nat.div_mod_eq B m) as HB. pose proof (Nat.mod_upper_bound B m ltac:(lia)) as Hr.
  destruct (0 <? B mod m) eqn:E; [apply Nat.ltb_lt in E | apply Nat.ltb_ge in E]; nia.
Qed.

Lemma num_micro_batches_cover : forall B m, 0 < m ->
  B <= ForwardStep.num_micro_batches B m * m.
Proof.
  intros B m Hm. unfold ForwardStep.num_micro_batches.
  pose proof (Nat.div_mod_eq B m) as HB. pose proof (Nat.mod_upper_bound B m ltac:(lia)) as Hr.
  destruct (0 <? B mod m) eqn:E; [apply Nat.ltb_lt in E | apply Nat.ltb_ge in E]; nia.
Qed.

Lemma slice_rows_size0 : forall t start end_, end_ <= size0 t ->
  size0 (slice_rows t start end_) = end_ - start.
Proof.
  intros t start end_ H. unfold slice_rows, size0 in *; simpl.
  rewrite length_firstn, length_skipn. lia.
Qed.

Lemma copy_logits_ok : forall logits start end_ out s u s',
  copy_logits logits start end_ out s = (Ok u, s') ->
  st_ctx s' = st_ctx s /\ st_trace s' = st_trace s ++ [EvCopyLogits start end_].
Proof.
  intros logits start end_ out [c tr] u s' H. unfold copy_logits in H. unfold_monad.
  crush_run. auto.
Qed.

Lemma copy_logits_raise : forall logits start end_ out s ex s',
  copy_logits logits start end_ out s = (Raise ex, s') -> ex <> ZeroDivisionError /\ s' = s.
Proof.
  intros logits start end_ out [c tr] ex s' H. unfold copy_logits in H. unfold_monad.
  crush_run. all: split; [discriminate | reflexivity].
Qed.

Lemma micro_batch_loop_ok e tokens pos mask m logits b0 :
  0 < m ->
  forall n k rb s l s',
  k + n <= ForwardStep.num_micro_batches (size0 tokens) m ->
  batch_size_offset (st_ctx s) = (b0 + Z.of_nat (Nat.min (k * m) (size0 tokens)))%Z ->
  ForwardStep.micro_batch_loop e tokens pos mask (size0 tokens) m logits (seq k n) rb s
    = (Ok l, s') ->
  l = logits /\
  sequence_len_offset (st_ctx s') = sequence_len_offset (st_ctx s) /\
  batch_size_offset (st_ctx s') = (b0 + Z.of_nat (Nat.min ((k + n) * m) (size0 tokens)))%Z /\
  exists tr, st_trace s' = st_trace s ++ tr /\
    chunk_trace (sequence_len_offset (st_ctx s)) b0
      (map (micro_batch_range (size0 tokens) m) (seq k n)) tr.
Proof.
  intros Hm n. induction n as [|n IH]; intros k rb s l s' Hn Hb H.
  - simpl in H. injection H as <- <-. rewrite Nat.add_0_r.
    repeat split; auto. exists []. rewrite app_nil_r. split; [reflexivity | constructor].
  - simpl in H. unfold bind at 1 in H.
    destruct (ForwardStep._forward_step_helper _ _ _ _ _ s) as [[out|ex] s1] eqn:Hh;
      [|discriminate].
    apply forward_step_helper_ok in Hh as [Hc1 [r [shp [Hr Ht1]]]].
    unfold_monad. simpl in H.
    assert (Hk : k * m < size0 tokens) by (apply num_micro_batches_start; lia).
    set (en := Nat.min (k * m + m) (size0 tokens)) in *.
    assert (Hen : en <= size0 tokens) by (unfold en; lia).
    assert (Hken : en - k * m <= m) by (unfold en; lia).
    set (v := (batch_size_offset (st_ctx s1) + Z.of_nat (en - k * m))%Z) in *.
    set (s2 := {| st_ctx := {| sequence_len_offset := sequence_len_offset (st_ctx s1);
                               batch_size_offset := v |};
                  st_trace := st_trace s1 ++ [EvSetBatchSizeOffset v] |}) in H.
    assert (Hcopy : exists s3 cp, copy_part (k * m) en cp /\ st_ctx s3 = st_ctx s2 /\
      st_trace s3 = st_trace s2 ++ cp /\
      ForwardStep.micro_batch_loop e tokens pos mask (size0 tokens) m logits (seq (S k) n)
        (if en - k * m =? m then rb else None) s3 = (Ok l, s')).
    { destruct (is_pipeline_last_stage e).
      - destruct (copy_logits logits (k * m) en out s2) as [[u|ex] s3] eqn:Hc;
          [|discriminate].
        apply copy_logits_ok in Hc as [Hc3 Ht3].
        exists s3, [EvCopyLogits (k * m) en]. unfold copy_part; auto.
      - exists s2, []. rewrite app_nil_r. unfold copy_part; auto. }
    destruct Hcopy as (s3 & cp & Hcp & Hc3 & Ht3 & Hloop).
    assert (Hv : v = (b0 + Z.of_nat en)%Z).
    { unfold v. rewrite Hc1, Hb. rewrite Nat.min_l by lia. lia. }
    apply IH in Hloop as (Hl & Hslo & Hbso & tr' & Htr' & Hct).
    2: lia.
    2: { rewrite Hc3. simpl. rewrite Hv. f_equal. f_equal. unfold en. lia. }
    rewrite Hc3 in Hslo. simpl in Hslo. rewrite Hc1 in Hslo.
    split; [exact Hl|]. split; [exact Hslo|].
    split; [rewrite Hbso; do 3 f_equal; lia|].
    exists (r ++ [EvForward (st_ctx s) (en - k * m); EvSend shp;
                  EvSetBatchSizeOffset (b0 + Z.of_nat en)%Z] ++ cp ++ tr').
    split.
    + rewrite Htr', Ht3. simpl. rewrite Ht1, <- Hv.
      rewrite slice_rows_size0 by lia. rewrite <- !app_assoc. reflexivity.
    + simpl. rewrite Hc3 in Hct. simpl in Hct. rewrite Hc1 in Hct.
      destruct s as [[slo bso] tr0]. simpl in *. rewrite Hb, Nat.min_l by lia.
      constructor; assumption.
Qed.

Lemma micro_batch_loop_raise e tokens pos mask m logits b0 :
  0 < m ->
  forall n k rb s ex s',
  k + n <= ForwardStep.num_micro_batches (size0 tokens) m ->
  batch_size_offset (st_ctx s) = (b0 + Z.of_nat (Nat.min (k * m) (size0 tokens)))%Z ->
  ForwardStep.micro_batch_loop e tokens pos mask (size0 tokens) m logits (seq k n) rb s
    = (Raise ex, s') ->
  ex <> ZeroDivisionError /\
  sequence_len_offset (st_ctx s') = sequence_len_offset (st_ctx s) /\
  exists j tr1 tr2, j <= n /\
    st_trace s' = st_trace s ++ tr1 ++ tr2 /\
    chunk_trace (sequence_len_offset (st_ctx s)) b0
      (firstn j (map (micro_batch_range (size0 tokens) m) (seq k n))) tr1 /\
    quiet tr2 /\
    batch_size_offset (st_ctx s') = (b0 + Z.of_nat (Nat.min ((k + j) * m) (size0 tokens)))%Z.
Proof.
  intros Hm n. induction n as [|n IH]; intros k rb s ex s' Hn Hb H.
  - simpl in H. discriminate.
  - simpl in H. unfold bind at 1 in H.
    assert (Hk : k * m < size0 tokens) by (apply num_micro_batches_start; lia).
    set (en := Nat.min (k * m + m) (size0 tokens)) in *.
    assert (Hen : en <= size0 tokens) by (unfold en; lia).
    destruct (ForwardStep._forward_step_helper _ _ _ _ _ s) as [[out|ex0] s1] eqn:Hh.
    2: { injection H as <- <-.
         apply forward_step_helper_raise in Hh as [Hz [Hc1 [tr2 [Ht2 Hq]]]].
         rewrite Hc1. split; [exact Hz|]. split; [reflexivity|].
         exists 0, [], tr2. simpl. rewrite Ht2, Nat.add_0_r.
         split; [lia|]. split; [reflexivity|]. split; [apply ct_nil|].
         split; [exact Hq|]. exact Hb. }
    apply forward_step_helper_ok in Hh as [Hc1 [r [shp [Hr Ht1]]]].
    unfold_monad. simpl in H.
    set (v := (batch_size_offset (st_ctx s1) + Z.of_nat (en - k * m))%Z) in *.
    set (s2 := {| st_ctx := {| sequence_len_offset := sequence_len_offset (st_ctx s1);
                               batch_size_offset := v |};
                  st_trace := st_trace s1 ++ [EvSetBatchSizeOffset v] |}) in H.
    assert (Hv : v = (b0 + Z.of_nat en)%Z).
    { unfold v. rewrite Hc1, Hb. rewrite Nat.min_l by lia. lia. }
    assert (Hblock : st_trace s2 = st_trace s ++ r ++
        [EvForward (mkContext (sequence_len_offset (st_ctx s)) (b0 + Z.of_nat (k * m))%Z)
           (en - k * m); EvSend shp; EvSetBatchSizeOffset (b0 + Z.of_nat en)%Z]).
    { simpl. rewrite Ht1, <- Hv, slice_rows_size0 by lia.
      destruct s as [[slo bso] tr0]. simpl in *. rewrite Hb, Nat.min_l by lia.
      rewrite <- !app_assoc. reflexivity. }
    assert (Hcopy : (ex <> ZeroDivisionError /\ s' = s2)
      \/ exists s3 cp, copy_part (k * m) en cp /\ st_ctx s3 = st_ctx s2 /\
      st_trace s3 = st_trace s2 ++ cp /\
      ForwardStep.micro_batch_loop e tokens pos mask (size0 tokens) m logits (seq (S k) n)
        (if en - k * m =? m then rb else None) s3 = (Raise ex, s')).
    { destruct (is_pipeline_last_stage e) eqn:Hlast.
      - destruct (copy_logits logits (k * m) en out s2) as [[u|ex1] s3] eqn:Hc.
        + apply copy_logits_ok in Hc as [Hc3 Ht3].
          right. exists s3, [EvCopyLogits (k * m) en]. unfold copy_part; auto.
        + apply copy_logits_raise in Hc as [Hz Hc]. subst s3. injection H as <- <-.
          left. auto.
      - right. exists s2, []. rewrite app_nil_r. unfold copy_part; auto. }
    destruct Hcopy as [(Hz & ->) | (s3 & cp & Hcp & Hc3 & Ht3 & Hloop)].
    + simpl. rewrite Hc1. split; [exact Hz|]. split; [reflexivity|].
      exists 1, (r ++ [EvForward (mkContext (sequence_len_offset (st_ctx s))
                                   (b0 + Z.of_nat (k * m))%Z) (en - k * m);
                       EvSend shp; EvSetBatchSizeOffset (b0 + Z.of_nat en)%Z] ++ []), [].
      split; [lia|]. split.
      { rewrite app_nil_r. change (st_trace s1 ++ [EvSetBatchSizeOffset v]) with (st_trace s2). rewrite Hblock. reflexivity. }
      split; [exact (ct_cons _ _ (k * m) en [] r shp [] [] Hr (or_introl eq_refl) (ct_nil _ _))|].
      split; [unfold quiet; auto|].
      rewrite Hv. do 3 f_equal. unfold en. lia.
    + apply IH in Hloop as (Hz & Hslo & j & tr1 & tr2 & Hj & Htr & Hct & Hq & Hbso).
      2: lia.
      2: { rewrite Hc3. simpl. rewrite Hv. do 3 f_equal. unfold en. lia. }
      rewrite Hc3 in Hslo, Hct. simpl in Hslo, Hct. rewrite Hc1 in Hslo, Hct.
      split; [exact Hz|]. split; [exact Hslo|].
      exists (S j),
        (r ++ [EvForward (mkContext (sequence_len_offset (st_ctx s))
                            (b0 + Z.of_nat (k * m))%Z) (en - k * m);
               EvSend shp; EvSetBatchSizeOffset (b0 + Z.of_nat en)%Z] ++ cp ++ tr1), tr2.
      split; [lia|]. split.
      { rewrite Htr, Ht3, Hblock. rewrite <- !app_assoc. reflexivity. }
      split; [simpl; constructor; assumption|].
      split; [exact Hq|].
      rewrite Hbso. do 3 f_equal. lia.
Qed.

Lemma firstn_seq_le : forall j n k, j <= n -> firstn j (seq k n) = seq k j.
Proof.
  induction j as [|j IH]; intros n k H; [reflexivity|].
  destruct n as [|n]; [lia|]. simpl. f_equal. apply IH. lia.
Qed.

Lemma plan_sizes_sum : forall B m, 0 < m -> forall n k,
  k + n <= ForwardStep.num_micro_batches B m ->
  list_sum (map range_size (map (micro_batch_range B m) (seq k n)))
    = Nat.min ((k + n) * m) B - Nat.min (k * m) B.
Proof.
  intros B m Hm n. induction n as [|n IH]; intros k Hn.
  - simpl. rewrite Nat.add_0_r. lia.
  - simpl. rewrite IH by lia.
    assert (Hk : k * m < B) by (apply num_micro_batches_start; lia).
    unfold range_size, micro_batch_range. simpl.
    replace (S k + n) with (k + S n) by lia.
    assert (Nat.min (S k * m) B <= Nat.min ((k + S n) * m) B) by nia.
    simpl in *. lia.
Qed.

Lemma plan_prefix_sum : forall B m j, 0 < m ->
  j <= length (micro_batch_plan B m) ->
  list_sum (map range_size (firstn j (micro_batch_plan B m))) = Nat.min (j * m) B.
Proof.
  intros B m j Hm Hj. unfold micro_batch_plan in *.
  rewrite length_map, length_seq in Hj.
  rewrite firstn_map, firstn_seq_le by exact Hj.
  rewrite plan_sizes_sum by lia. simpl. lia.
Qed.

Lemma chunk_trace_slo_writes : forall slo b0 rs tr,
  chunk_trace slo b0 rs tr -> slo_writes tr = [].
Proof.
  intros slo b0 rs tr H. induction H as [|st en rest r shp cp tr Hr Hcp _ IH];
    [reflexivity|].
  unfold slo_writes in *. rewrite !flat_map_app. rewrite IH.
  destruct Hr as [-> | [x ->]]; destruct Hcp as [-> | ->]; reflexivity.
Qed.

Lemma chunk_trace_bso_writes : forall slo b0 rs tr,
  chunk_trace slo b0 rs tr -> bso_writes tr = map (fun r => (b0 + Z.of_nat (snd r))%Z) rs.
Proof.
  intros slo b0 rs tr H. induction H as [|st en rest r shp cp tr Hr Hcp _ IH];
    [reflexivity|].
  unfold bso_writes in *. rewrite !flat_map_app. rewrite IH.
  destruct Hr as [-> | [x ->]]; destruct Hcp as [-> | ->]; reflexivity.
Qed.

Section ChunkedPath.

Variable e : env.
Variables (tokens pos : batch2d) (mask : tensor) (m : nat) (rbl : option nat).

Lemma with_pipelining_ok : forall s l s',
  ForwardStep._with_pipelining_forward_step e tokens pos mask m rbl s = (Ok l, s') ->
  0 < m /\
  l = (if is_pipeline_last_stage e
       then Some (torch_empty [size0 tokens;
                               match rbl with None => size1 tokens | Some r => r end;
                               padded_vocab_size (args e)] torch_float32)
       else None) /\
  st_ctx s' = mkContext (sequence_len_offset (st_ctx s) + Z.of_nat (size1 tokens))%Z 0%Z /\
  exists tr, st_trace s' = st_trace s ++ tr ++
       [EvSetSequenceLenOffset (sequence_len_offset (st_ctx s) + Z.of_nat (size1 tokens))%Z;
        EvSetBatchSizeOffset 0%Z] /\
    chunk_trace (sequence_len_offset (st_ctx s)) (batch_size_offset (st_ctx s))
      (micro_batch_plan (size0 tokens) m) tr.
Proof.
  intros s l s' H. unfold ForwardStep._with_pipelining_forward_step in H.
  destruct (Nat.eqb_spec m 0) as [->|Hm]; [discriminate|].
  unfold bind at 1 in H.
  match type of H with
  | context [ForwardStep.micro_batch_loop e tokens pos mask ?B ?mb ?lg ?ix ?rb s] =>
      destruct (ForwardStep.micro_batch_loop e tokens pos mask B mb lg ix rb s)
        as [[l1|ex] s1] eqn:Hl; [|discriminate]
  end.
  apply (micro_batch_loop_ok _ _ _ _ _ _ (batch_size_offset (st_ctx s))) in Hl
    as (-> & Hslo & _ & tr & Htr & Hct); [| lia | lia | simpl; lia].
  unfold_monad. simpl in H. injection H as <- <-.
  split; [lia|]. split; [reflexivity|]. simpl. rewrite Hslo. split; [reflexivity|].
  exists tr. split.
  - rewrite Htr, <- !app_assoc. reflexivity.
  - exact Hct.
Qed.

Lemma with_pipelining_raise : forall s ex s',
  ForwardStep._with_pipelining_forward_step e tokens pos mask m rbl s = (Raise ex, s') ->
  sequence_len_offset (st_ctx s') = sequence_len_offset (st_ctx s) /\
  exists j tr1 tr2, j <= length (micro_batch_plan (size0 tokens) m) /\
    st_trace s' = st_trace s ++ tr1 ++ tr2 /\
    chunk_trace (sequence_len_offset (st_ctx s)) (batch_size_offset (st_ctx s))
      (firstn j (micro_batch_plan (size0 tokens) m)) tr1 /\
    quiet tr2 /\
    batch_size_offset (st_ctx s') = (batch_size_offset (st_ctx s) +
      Z.of_nat (list_sum (map range_size (firstn j (micro_batch_plan (size0 tokens) m)))))%Z.
Proof.
  intros s ex s' H. unfold ForwardStep._with_pipelining_forward_step in H.
  destruct (Nat.eqb_spec m 0) as [->|Hm].
  { injection H as <- <-. split; [reflexivity|]. exists 0, [], [].
    simpl. rewrite app_nil_r. repeat split; try constructor; lia. }
  unfold bind at 1 in H.
  match type of H with
  | context [ForwardStep.micro_batch_loop e tokens pos mask ?B ?mb ?lg ?ix ?rb s] =>
      destruct (ForwardStep.micro_batch_loop e tokens pos mask B mb lg ix rb s)
        as [[l1|ex1] s1] eqn:Hl
  end.
  { unfold_monad. simpl in H. discriminate. }
  injection H as <- <-.
  apply (micro_batch_loop_raise _ _ _ _ _ _ (batch_size_offset (st_ctx s))) in Hl
    as (_ & Hslo & j & tr1 & tr2 & Hj & Htr & Hct & Hq & Hbso); [| lia | lia | simpl; lia].
  split; [exact Hslo|].
  assert (Hj' : j <= length (micro_batch_plan (size0 tokens) m)).
  { unfold micro_batch_plan. rewrite length_map, length_seq. exact Hj. }
  exists j, tr1, tr2. split; [exact Hj'|]. split; [exact Htr|]. split; [exact Hct|].
  split; [exact Hq|]. rewrite Hbso, plan_prefix_sum by lia. reflexivity.
Qed.

End ChunkedPath.

Section UnchunkedPath.

Variable e : env.
Variables (tokens pos : batch2d) (mask : tensor) (rb : option tensor).

Lemma no_pipelining_ok : forall s l s',
  ForwardStep._no_pipelining_forward_step e tokens pos mask rb s = (Ok l, s') ->
  (exists out, l = if is_pipeline_last_stage e then Some out else None) /\
  st_ctx s' = mkContext (sequence_len_offset (st_ctx s) + Z.of_nat (size1 tokens))%Z
                        (batch_size_offset (st_ctx s)) /\
  exists tr, st_trace s' = st_trace s ++ tr /\
    slo_writes tr = [(sequence_len_offset (st_ctx s) + Z.of_nat (size1 tokens))%Z] /\
    bso_writes tr = [].
Proof.
  intros s l s' H. unfold ForwardStep._no_pipelining_forward_step in H.
  unfold bind at 1 in H.
  destruct (ForwardStep._forward_step_helper e tokens pos mask rb s)
    as [[out|ex] s1] eqn:Hh; [|discriminate].
  apply forward_step_helper_ok in Hh as [Hc1 [r [shp [Hr Ht1]]]].
  unfold_monad. simpl in H. injection H as <- <-.
  split; [exists out; reflexivity|]. rewrite Hc1. split; [reflexivity|].
  eexists. split; [rewrite Ht1, <- !app_assoc; reflexivity|].
  unfold slo_writes, bso_writes. rewrite !flat_map_app.
  destruct Hr as [-> | [x ->]]; split; reflexivity.
Qed.

Lemma no_pipelining_raise : forall s ex s',
  ForwardStep._no_pipelining_forward_step e tokens pos mask rb s = (Raise ex, s') ->
  st_ctx s' = st_ctx s /\ exists tr, st_trace s' = st_trace s ++ tr /\ quiet tr.
Proof.
  intros s ex s' H. unfold ForwardStep._no_pipelining_forward_step in H.
  unfold bind at 1 in H.
  destruct (ForwardStep._forward_step_helper e tokens pos mask rb s)
    as [[out|ex1] s1] eqn:Hh.
  - unfold_monad. simpl in H. discriminate.
  - injection H as <- <-. apply forward_step_helper_raise in Hh as [_ Hh]. exact Hh.
Qed.

End UnchunkedPath.

Lemma call_cases : forall e tokens pos mask rbl,
  (exists m, 0 < m /\ forall s, ForwardStep.call e tokens pos mask rbl s =
     ForwardStep._with_pipelining_forward_step e tokens pos mask m rbl s) \/
  (forall s, ForwardStep.call e tokens pos mask rbl s =
     ForwardStep._no_pipelining_forward_step e tokens pos mask
       (match rbl with None => None | Some r => _allocate_recv_buffer e (size0 tokens) r end) s) \/
  (forall s, ForwardStep.call e tokens pos mask rbl s = (Raise ZeroDivisionError, s)).
Proof.
  intros e tokens pos mask rbl. unfold ForwardStep.call, py_floordiv.
  destruct (_ && _); [|right; left; reflexivity].
  destruct (Z.leb _ _); [|right; left; reflexivity].
  destruct (Z.eqb _ 0).
  - right; right. intros s. reflexivity.
  - left. eexists. split; [|intros s; reflexivity]. lia.
Qed.

(** * The claims *)

(** C1 (as amended): every call of [ForwardStep.__call__] that returns
    normally advances [sequence_len_offset] by exactly [tokens.size(1)],
    with a single write, on the chunked and on the unchunked path alike;
    [recv_buffer_seq_length] plays no part in the increment. *)
Theorem call_advances_sequence_len_offset : forall e tokens pos mask rbl s l s',
  ForwardStep.call e tokens pos mask rbl s = (Ok l, s') ->
  sequence_len_offset (st_ctx s') =
    (sequence_len_offset (st_ctx s) + Z.of_nat (size1 tokens))%Z /\
  exists tr, st_trace s' = st_trace s ++ tr /\
    slo_writes tr = [(sequence_len_offset (st_ctx s) + Z.of_nat (size1 tokens))%Z].
Proof.
  intros e tokens pos mask rbl s l s' H.
  destruct (call_cases e tokens pos mask rbl) as [[m [_ Hc]] | [Hc | Hc]];
    rewrite Hc in H.
  - apply with_pipelining_ok in H as (_ & _ & Hctx & tr & Htr & Hct).
    rewrite Hctx. split; [reflexivity|].
    eexists. split; [exact Htr|].
    unfold slo_writes. rewrite flat_map_app.
    change (flat_map _ tr) with (slo_writes tr).
    rewrite (chunk_trace_slo_writes _ _ _ _ Hct). reflexivity.
  - apply no_pipelining_ok in H as (_ & Hctx & tr & Htr & Hw & _).
    rewrite Hctx. split; [reflexivity|]. exists tr. auto.
  - discriminate.
Qed.

(** C1, counterexample: on a second pipeline stage with chunking disabled,
    a call on a [1 x 3] batch with [recv_buffer_seq_length = 7] advances
    [sequence_len_offset] by 3, not by 7. *)
Lemma call_sequence_len_offset_ignores_recv_length :
  fst (ForwardStep.call (sample_env false true 2 (-1)) (sample_tokens 1 3)
         (sample_tokens 1 3) sample_mask (Some 7) sample_state)
    = Ok (Some (mkTensor [1; 3; 16] torch_float32)) /\
  sequence_len_offset (st_ctx (snd (ForwardStep.call (sample_env false true 2 (-1))
      (sample_tokens 1 3) (sample_tokens 1 3) sample_mask (Some 7) sample_state))) = 3%Z /\
  sequence_len_offset (st_ctx (snd (ForwardStep.call (sample_env false true 2 (-1))
      (sample_tokens 1 3) (sample_tokens 1 3) sample_mask (Some 7) sample_state))) <> 7%Z.
Proof. vm_compute. split; [reflexivity|]. split; [reflexivity|]. discriminate. Qed.

(** C1, witness of the amended theorem on the same call. *)
Lemma call_advances_sequence_len_offset_witness :
  sequence_len_offset (st_ctx (snd (ForwardStep.call (sample_env false true 2 (-1))
      (sample_tokens 1 3) (sample_tokens 1 3) sample_mask (Some 7) sample_state))) = 3%Z.
Proof.
  destruct (ForwardStep.call (sample_env false true 2 (-1)) (sample_tokens 1 3)
              (sample_tokens 1 3) sample_mask (Some 7) sample_state) as [r s'] eqn:H.
  destruct r as [l|ex]; [|vm_compute in H; discriminate].
  apply call_advances_sequence_len_offset in H as [H _]. simpl. rewrite H. reflexivity.
Defined.

(** C2 (as amended): with [seq_len] the [recv_buffer_seq_length] override
    or else [tokens.size(1)], [ForwardStep.__call__] takes the chunked path
    exactly when the pipeline has more than one stage, the threshold is not
    the sentinel [-1] and [tokens.size(0) * seq_len >= threshold], provided
    [seq_len >= 1]; its micro-batch size is then [max(1, threshold // seq_len)],
    so at least 1.  Otherwise it takes the unchunked path (in particular for
    every batch when the threshold is [-1]).  When the condition holds with
    [seq_len = 0] the call raises [ZeroDivisionError] and changes nothing. *)
Theorem call_chunking_rule : forall e tokens pos mask rbl,
  let seq_len := match rbl with None => size1 tokens | Some r => r end in
  let threshold := inference_batch_times_seqlen_threshold (args e) in
  let chunk := (Nat.ltb 1 (pipeline_model_parallel_size (args e))
                && negb (Z.eqb threshold (-1))
                && Z.leb threshold (Z.of_nat (size0 tokens) * Z.of_nat seq_len))%Z in
  let unchunked := ForwardStep._no_pipelining_forward_step e tokens pos mask
      (match rbl with None => None | Some r => _allocate_recv_buffer e (size0 tokens) r end) in
  (chunk = true -> 0 < seq_len ->
     exists m, 1 <= m /\ Z.of_nat m = Z.max 1 (threshold / Z.of_nat seq_len) /\
       forall s, ForwardStep.call e tokens pos mask rbl s =
                 ForwardStep._with_pipelining_forward_step e tokens pos mask m rbl s) /\
  (chunk = false -> forall s, ForwardStep.call e tokens pos mask rbl s = unchunked s) /\
  (threshold = (-1)%Z -> forall s, ForwardStep.call e tokens pos mask rbl s = unchunked s) /\
  (chunk = true -> seq_len = 0 ->
     forall s, ForwardStep.call e tokens pos mask rbl s = (Raise ZeroDivisionError, s)).
Proof.
  intros e tokens pos mask rbl seq_len threshold chunk unchunked.
  unfold chunk, unchunked, ForwardStep.call, ForwardStep.pipeline_size_larger_than_one,
    ForwardStep.pipelining_batch_x_seqlen, py_floordiv.
  fold threshold seq_len.
  destruct (Nat.ltb 1 _) eqn:Hpp; destruct (Z.eqb threshold (-1)) eqn:Hthr;
    destruct (Z.leb threshold _) eqn:Hle; simpl;
    repeat split; intros; try discriminate; try reflexivity.
  - exists (Z.to_nat (Z.max 1 (threshold / Z.of_nat seq_len))).
    split; [lia|]. split; [rewrite Z2Nat.id; lia|].
    intros s. destruct (Z.eqb_spec (Z.of_nat seq_len) 0); [lia|]. reflexivity.
  - apply Z.eqb_neq in Hthr. contradiction.
  - rewrite H0. reflexivity.
Qed.

Lemma with_pipelining_no_zero_division : forall e tokens pos mask m rbl s s',
  0 < m ->
  ForwardStep._with_pipelining_forward_step e tokens pos mask m rbl s
    <> (Raise ZeroDivisionError, s').
Proof.
  intros e tokens pos mask m rbl s s' Hm H.
  unfold ForwardStep._with_pipelining_forward_step in H.
  destruct (Nat.eqb_spec m 0) as [->|_]; [lia|].
  unfold bind at 1 in H.
  match type of H with
  | context [ForwardStep.micro_batch_loop e tokens pos mask ?B ?mb ?lg ?ix ?rb s] =>
      destruct (ForwardStep.micro_batch_loop e tokens pos mask B mb lg ix rb s)
        as [[l1|ex1] s1] eqn:Hl
  end.
  - unfold_monad. simpl in H. discriminate.
  - injection H as -> _.
    apply (micro_batch_loop_raise _ _ _ _ _ _ (batch_size_offset (st_ctx s))) in Hl
      as [Hz _]; [contradiction | lia | lia | simpl; lia].
Qed.

(** C2, counterexample: two stages, threshold 0, a [2 x 0] batch.  The
    chunking condition holds, yet the call raises [ZeroDivisionError] on
    [0 // 0] and leaves the state untouched, which the chunked path never
    does for any micro-batch size [m >= 1]. *)
Lemma call_chunking_zero_seq_len :
  (Nat.ltb 1 (pipeline_model_parallel_size (args (sample_env false true 2 0)))
   && negb (Z.eqb (inference_batch_times_seqlen_threshold (args (sample_env false true 2 0))) (-1))
   && Z.leb (inference_batch_times_seqlen_threshold (args (sample_env false true 2 0)))
        (Z.of_nat (size0 (sample_tokens 2 0)) * Z.of_nat (size1 (sample_tokens 2 0))))%Z = true /\
  ForwardStep.call (sample_env false true 2 0) (sample_tokens 2 0) (sample_tokens 2 0)
    sample_mask None sample_state = (Raise ZeroDivisionError, sample_state) /\
  (forall m, 0 < m ->
     ForwardStep._with_pipelining_forward_step (sample_env false true 2 0) (sample_tokens 2 0)
       (sample_tokens 2 0) sample_mask m None sample_state
     <> (Raise ZeroDivisionError, sample_state)).
Proof.
  split; [reflexivity|]. split; [vm_compute; reflexivity|].
  intros m Hm. apply with_pipelining_no_zero_division. exact Hm.
Qed.

(** C3: for every batch size [B] and micro-batch size [M >= 1], the ranges
    [[k*M, min(k*M+M, B))], [k < ceil(B/M)], of [_with_pipelining_forward_step]
    are non-empty, each ends no later than any later one starts, and
    together they cover exactly [[0, B)]; for [B = 10], [M = 4] they are
    [[0,4)], [[4,8)], [[8,10)]. *)
Theorem micro_batch_plan_partition : forall B M, 1 <= M ->
  (forall i, i < length (micro_batch_plan B M) ->
     fst (nth i (micro_batch_plan B M) (0, 0)) < snd (nth i (micro_batch_plan B M) (0, 0))) /\
  (forall i j, i < j < length (micro_batch_plan B M) ->
     snd (nth i (micro_batch_plan B M) (0, 0)) <= fst (nth j (micro_batch_plan B M) (0, 0))) /\
  (forall x, x < B <-> exists r, In r (micro_batch_plan B M) /\ fst r <= x < snd r) /\
  micro_batch_plan 10 4 = [(0, 4); (4, 8); (8, 10)].
Proof.
  intros B M HM.
  assert (Hlen : length (micro_batch_plan B M) = ForwardStep.num_micro_batches B M).
  { unfold micro_batch_plan. rewrite length_map, length_seq. reflexivity. }
  assert (Hnth : forall i, i < ForwardStep.num_micro_batches B M ->
            nth i (micro_batch_plan B M) (0, 0) = micro_batch_range B M i).
  { intros i Hi. unfold micro_batch_plan.
    rewrite nth_indep with (d' := micro_batch_range B M 0)
      by (rewrite length_map, length_seq; exact Hi).
    rewrite map_nth, seq_nth by exact Hi. reflexivity. }
  rewrite Hlen. split; [|split; [|split]].
  - intros i Hi. rewrite Hnth by exact Hi. unfold micro_batch_range. simpl.
    pose proof (num_micro_batches_start B M i ltac:(lia) Hi). lia.
  - intros i j Hij. rewrite !Hnth by lia. unfold micro_batch_range. simpl. nia.
  - intros x. split.
    + intros Hx. exists (micro_batch_range B M (x / M)). split.
      * unfold micro_batch_plan. apply in_map, in_seq. split; [lia|].
        pose proof (num_micro_batches_cover B M ltac:(lia)).
        apply Nat.Div0.div_lt_upper_bound. lia.
      * unfold micro_batch_range. simpl.
        pose proof (Nat.div_mod_eq x M). pose proof (Nat.mod_upper_bound x M ltac:(lia)).
        nia.
    + intros [r [Hr Hx]]. unfold micro_batch_plan in Hr.
      apply in_map_iff in Hr as [i [<- _]]. unfold micro_batch_range in Hx. simpl in Hx. lia.
  - reflexivity.
Qed.

(** C3, witness. *)
Lemma micro_batch_plan_partition_witness :
  1 <= 4 /\ micro_batch_plan 10 4 = [(0, 4); (4, 8); (8, 10)].
Proof.
  split; [lia|]. apply (micro_batch_plan_partition 10 4). lia.
Defined.

(** C4: a call entered with [batch_size_offset = 0] that returns normally
    leaves [batch_size_offset = 0].  On the unchunked path the offset is
    never written; on the chunked path (micro-batch size [m]) the log is,
    per micro-batch [[start, end)] of the plan, its receive, forward and
    send immediately followed by the write [batch_size_offset = end], so the
    written values are the ends of the ranges in order, and the invocation
    ends with the final [sequence_len_offset] write and
    [batch_size_offset = 0]. *)
Theorem call_batch_size_offset_discipline : forall e tokens pos mask rbl s l s',
  batch_size_offset (st_ctx s) = 0%Z ->
  ForwardStep.call e tokens pos mask rbl s = (Ok l, s') ->
  batch_size_offset (st_ctx s') = 0%Z /\
  exists tr, st_trace s' = st_trace s ++ tr /\
    (bso_writes tr = [] \/
     exists m tr1,
       tr = tr1 ++ [EvSetSequenceLenOffset
                      (sequence_len_offset (st_ctx s) + Z.of_nat (size1 tokens))%Z;
                    EvSetBatchSizeOffset 0%Z] /\
       chunk_trace (sequence_len_offset (st_ctx s)) 0 (micro_batch_plan (size0 tokens) m) tr1 /\
       bso_writes tr1 = map (fun r => Z.of_nat (snd r)) (micro_batch_plan (size0 tokens) m)).
Proof.
  intros e tokens pos mask rbl s l s' H0 H.
  destruct (call_cases e tokens pos mask rbl) as [[m [_ Hc]] | [Hc | Hc]];
    rewrite Hc in H.
  - apply with_pipelining_ok in H as (_ & _ & Hctx & tr & Htr & Hct).
    rewrite Hctx. split; [reflexivity|].
    eexists. split; [exact Htr|]. right. exists m, tr.
    rewrite H0 in Hct. split; [reflexivity|]. split; [exact Hct|].
    rewrite (chunk_trace_bso_writes _ _ _ _ Hct). apply map_ext. intros r. lia.
  - apply no_pipelining_ok in H as (_ & Hctx & tr & Htr & _ & Hw).
    rewrite Hctx. split; [exact H0|]. exists tr. auto.
  - discriminate.
Qed.

(** C4, witness: a chunked call (two stages, threshold 8, a [10 x 2] batch). *)
Lemma call_batch_size_offset_discipline_witness :
  batch_size_offset (st_ctx (snd (ForwardStep.call (sample_env false true 2 8)
    (sample_tokens 10 2) (sample_tokens 10 2) sample_mask None sample_state))) = 0%Z.
Proof.
  destruct (ForwardStep.call (sample_env false true 2 8) (sample_tokens 10 2)
              (sample_tokens 10 2) sample_mask None sample_state) as [r s'] eqn:H.
  destruct r as [l|ex]; [|vm_compute in H; discriminate].
  apply call_batch_size_offset_discipline in H as [H _]; [exact H | reflexivity].
Defined.

(** C5: [_allocate_recv_buffer] returns [None] on the first pipeline stage;
    elsewhere a buffer of shape [(sequence_length, batch_size, hidden_size)],
    of dtype float32 when [fp32_residual_connection] is set and of
    [params_dtype] otherwise; for [B = 2], [S = 5], [hidden = 8] the shape
    is [(5, 2, 8)]. *)
Theorem allocate_recv_buffer_shape_dtype : forall e batch_size sequence_length,
  (is_pipeline_first_stage e = true ->
     _allocate_recv_buffer e batch_size sequence_length = None) /\
  (is_pipeline_first_stage e = false -> fp32_residual_connection (args e) = true ->
     _allocate_recv_buffer e batch_size sequence_length =
       Some (mkTensor [sequence_length; batch_size; hidden_size (args e)] torch_float32)) /\
  (is_pipeline_first_stage e = false -> fp32_residual_connection (args e) = false ->
     _allocate_recv_buffer e batch_size sequence_length =
       Some (mkTensor [sequence_length; batch_size; hidden_size (args e)]
               (params_dtype (args e)))) /\
  (is_pipeline_first_stage e = false -> hidden_size (args e) = 8 ->
     option_map t_shape (_allocate_recv_buffer e 2 5) = Some [5; 2; 8]).
Proof.
  intros e b sl. unfold _allocate_recv_buffer, _get_recv_buffer_dtype, torch_empty.
  repeat split; intros H1; try intros H2; rewrite H1; try rewrite H2; reflexivity.
Qed.

(** C6: on a rank that is not the last pipeline stage, [__call__] returns
    no logits, on either path. *)
Theorem call_non_last_stage_no_logits : forall e tokens pos mask rbl s l s',
  is_pipeline_last_stage e = false ->
  ForwardStep.call e tokens pos mask rbl s = (Ok l, s') ->
  l = None.
Proof.
  intros e tokens pos mask rbl s l s' Hlast H.
  destruct (call_cases e tokens pos mask rbl) as [[m [_ Hc]] | [Hc | Hc]];
    rewrite Hc in H.
  - apply with_pipelining_ok in H as (_ & -> & _). rewrite Hlast. reflexivity.
  - apply no_pipelining_ok in H as ([out ->] & _). rewrite Hlast. reflexivity.
  - discriminate.
Qed.

(** C6, witness: a chunked call on a middle stage. *)
Lemma call_non_last_stage_no_logits_witness :
  fst (ForwardStep.call (sample_env false false 3 8) (sample_tokens 10 2)
         (sample_tokens 10 2) sample_mask None sample_state) = Ok None.
Proof.
  destruct (ForwardStep.call (sample_env false false 3 8) (sample_tokens 10 2)
              (sample_tokens 10 2) sample_mask None sample_state) as [r s'] eqn:H.
  destruct r as [l|ex]; [|vm_compute in H; discriminate].
  simpl. f_equal. exact (call_non_last_stage_no_logits (sample_env false false 3 8) _ _ _ _ _ _ _ eq_refl H).
Defined.

(** C7: a chunked run that completes produces, for each micro-batch
    [[start, end)] of the plan in order, the optional blocking receive,
    then the model forward (observing [batch_size_offset = b0 + start],
    the offsets of all earlier micro-batches), then the send, then at once
    the write [batch_size_offset = b0 + end] (and, on the last stage, the
    logits copy), before the next micro-batch's receive; the sequence
    offset and batch offset reset follow the last micro-batch. *)
Theorem chunked_execution_order : forall e tokens pos mask m rbl s l s',
  ForwardStep._with_pipelining_forward_step e tokens pos mask m rbl s = (Ok l, s') ->
  exists tr, st_trace s' = st_trace s ++ tr ++
       [EvSetSequenceLenOffset (sequence_len_offset (st_ctx s) + Z.of_nat (size1 tokens))%Z;
        EvSetBatchSizeOffset 0%Z] /\
    chunk_trace (sequence_len_offset (st_ctx s)) (batch_size_offset (st_ctx s))
      (micro_batch_plan (size0 tokens) m) tr.
Proof.
  intros e tokens pos mask m rbl s l s' H.
  apply with_pipelining_ok in H as (_ & _ & _ & H). exact H.
Qed.

(** C7, witness: the [10 x 2] batch in micro-batches of 4. *)
Lemma chunked_execution_order_witness :
  exists tr, st_trace (snd (ForwardStep._with_pipelining_forward_step
      (sample_env false true 2 8) (sample_tokens 10 2) (sample_tokens 10 2) sample_mask
      4 None sample_state)) = [] ++ tr ++ [EvSetSequenceLenOffset 2%Z; EvSetBatchSizeOffset 0%Z] /\
    chunk_trace 0 0 (micro_batch_plan 10 4) tr.
Proof.
  destruct (ForwardStep._with_pipelining_forward_step (sample_env false true 2 8)
              (sample_tokens 10 2) (sample_tokens 10 2) sample_mask 4 None sample_state)
    as [r s'] eqn:H.
  destruct r as [l|ex]; [|vm_compute in H; discriminate].
  exact (chunked_execution_order _ _ _ _ _ _ _ _ _ H).
Defined.

(** C8: when a chunked run raises, no logits are returned (the result is
    the exception), [sequence_len_offset] is unchanged, and for the number
    [k] of micro-batches whose forward step completed (the log holds their
    full blocks, then only events with no send and no offset write),
    [batch_size_offset] has grown by exactly the sizes of micro-batches
    [0 .. k-1]. *)
Theorem chunked_failure_offsets : forall e tokens pos mask m rbl s ex s',
  ForwardStep._with_pipelining_forward_step e tokens pos mask m rbl s = (Raise ex, s') ->
  sequence_len_offset (st_ctx s') = sequence_len_offset (st_ctx s) /\
  exists k tr1 tr2, k <= length (micro_batch_plan (size0 tokens) m) /\
    st_trace s' = st_trace s ++ tr1 ++ tr2 /\
    chunk_trace (sequence_len_offset (st_ctx s)) (batch_size_offset (st_ctx s))
      (firstn k (micro_batch_plan (size0 tokens) m)) tr1 /\
    quiet tr2 /\
    batch_size_offset (st_ctx s') = (batch_size_offset (st_ctx s) +
      Z.of_nat (list_sum (map range_size (firstn k (micro_batch_plan (size0 tokens) m)))))%Z.
Proof.
  intros e tokens pos mask m rbl s ex s' H.
  exact (with_pipelining_raise e tokens pos mask m rbl s ex s' H).
Qed.

(** C8, witness: the model raises on the second micro-batch of four rows;
    one micro-batch completed, so [batch_size_offset] is 4. *)
Lemma chunked_failure_offsets_witness :
  sequence_len_offset (st_ctx (snd (ForwardStep._with_pipelining_forward_step
      sample_failing_env (sample_tokens 10 2) (sample_tokens 10 2) sample_mask
      4 None sample_state))) = 0%Z /\
  batch_size_offset (st_ctx (snd (ForwardStep._with_pipelining_forward_step
      sample_failing_env (sample_tokens 10 2) (sample_tokens 10 2) sample_mask
      4 None sample_state))) = 4%Z.
Proof.
  split; [|vm_compute; reflexivity].
  destruct (ForwardStep._with_pipelining_forward_step sample_failing_env
              (sample_tokens 10 2) (sample_tokens 10 2) sample_mask 4 None sample_state)
    as [r s'] eqn:H.
  destruct r as [l|ex]; [vm_compute in H; discriminate|].
  apply chunked_failure_offsets in H as [H _]. exact H.
Defined.

(** C9: [_no_pipelining_forward_step], whatever its outcome, never writes
    [batch_size_offset]: the offset keeps its value at entry. *)
Theorem no_pipelining_keeps_batch_size_offset : forall e tokens pos mask rb s,
  batch_size_offset (st_ctx (snd (ForwardStep._no_pipelining_forward_step
                                    e tokens pos mask rb s)))
    = batch_size_offset (st_ctx s) /\
  exists tr, st_trace (snd (ForwardStep._no_pipelining_forward_step e tokens pos mask rb s))
               = st_trace s ++ tr /\ bso_writes tr = [].
Proof.
  intros e tokens pos mask rb s.
  destruct (ForwardStep._no_pipelining_forward_step e tokens pos mask rb s)
    as [[l|ex] s'] eqn:H; simpl.
  - apply no_pipelining_ok in H as (_ & Hctx & tr & Htr & _ & Hw).
    rewrite Hctx. split; [reflexivity|]. exists tr. auto.
  - apply no_pipelining_raise in H as (Hctx & tr & Htr & _ & Hw & _).
    rewrite Hctx. split; [reflexivity|]. exists tr. auto.
Qed.

(** C10: on the last stage, a chunked run that completes returns the
    preallocated logits buffer: dtype float32, shape
    [(batch_size, seq_len, padded_vocab_size)] with [seq_len] the
    [recv_buffer_seq_length] override or else [tokens.size(1)], whatever
    [params_dtype] and [fp32_residual_connection] are. *)
Theorem chunked_logits_buffer : forall e tokens pos mask m rbl s l s',
  is_pipeline_last_stage e = true ->
  ForwardStep._with_pipelining_forward_step e tokens pos mask m rbl s = (Ok l, s') ->
  l = Some (mkTensor [size0 tokens;
                      match rbl with None => size1 tokens | Some r => r end;
                      padded_vocab_size (args e)] torch_float32).
Proof.
  intros e tokens pos mask m rbl s l s' Hlast H.
  apply with_pipelining_ok in H as (_ & -> & _). rewrite Hlast. reflexivity.
Qed.

(** C10, witness. *)
Lemma chunked_logits_buffer_witness :
  fst (ForwardStep._with_pipelining_forward_step (sample_env false true 2 8)
         (sample_tokens 10 2) (sample_tokens 10 2) sample_mask 4 None sample_state)
    = Ok (Some (mkTensor [10; 2; 16] torch_float32)).
Proof.
  destruct (ForwardStep._with_pipelining_forward_step (sample_env false true 2 8)
              (sample_tokens 10 2) (sample_tokens 10 2) sample_mask 4 None sample_state)
    as [r s'] eqn:H.
  destruct r as [l|ex]; [|vm_compute in H; discriminate].
  simpl. f_equal. exact (chunked_logits_buffer (sample_env false true 2 8) _ _ _ _ _ _ _ _
                           eq_refl H).
Defined.

(** * Further properties of [forward_step.py] *)

Lemma forward_step_helper_effects : forall e tokens pos mask rb s out s',
  ForwardStep._forward_step_helper e tokens pos mask rb s = (Ok out, s') ->
  exists o inp tr,
    model_forward e inp (st_ctx s) tokens pos mask = Some o /\
    out = match o with OutTensor t => t | OutTuple t _ => t end /\
    (is_pipeline_first_stage e = true -> inp = None) /\
    st_trace s' = st_trace s ++ tr ++ [EvSend (t_shape out)] /\
    recv_shapes tr = step_recv_shapes e tokens rb /\
    forward_rows tr = [size0 tokens] /\ copy_ranges tr = [].
Proof.
  intros e tokens pos mask rb [c tr0] out s' H.
  unfold ForwardStep._forward_step_helper, ForwardStep._forward,
    ForwardStep.recv_from_prev, ForwardStep.send_to_next in H.
  unfold_monad. crush_run.
  all: unfold step_recv_shapes.
  all: repeat match goal with
         | H : _allocate_recv_buffer _ _ _ = _ |- _ => rewrite H; clear H
         | H : (_ <? _) = _ |- _ => rewrite H; clear H
         end.
  all: do 2 eexists; (match goal with
                      | |- context [EvRecv ?x] => exists [EvRecv x; EvForward c (size0 tokens)]
                      | |- _ => exists [EvForward c (size0 tokens)]
                      end).
  all: split; [eassumption|]; split; [reflexivity|]; split;
       [intros Hf; first [reflexivity | rewrite Hf in *; discriminate] |].
  all: split; [rewrite <- !app_assoc; reflexivity | auto].
Qed.

Lemma micro_batch_full_before_last : forall B m k, 0 < m ->
  S k < ForwardStep.num_micro_batches B m ->
  range_size (micro_batch_range B m k) = m.
Proof.
  intros B m k Hm Hk. pose proof (num_micro_batches_start B m (S k) Hm Hk).
  unfold range_size, micro_batch_range. simpl in *. lia.
Qed.

Lemma micro_batch_loop_effects e tokens pos mask m logits :
  0 < m ->
  forall n k rb s l s',
  k + n <= ForwardStep.num_micro_batches (size0 tokens) m ->
  ForwardStep.micro_batch_loop e tokens pos mask (size0 tokens) m logits (seq k n) rb s
    = (Ok l, s') ->
  exists tr, st_trace s' = st_trace s ++ tr /\
    copy_ranges tr = (if is_pipeline_last_stage e
                      then map (micro_batch_range (size0 tokens) m) (seq k n) else []) /\
    forward_rows tr = map range_size (map (micro_batch_range (size0 tokens) m) (seq k n)) /\
    recv_shapes tr =
      flat_map (fun r => step_recv_shapes e (slice_rows tokens (fst r) (snd r))
                           (if Nat.eqb (range_size r) m then rb else None))
        (map (micro_batch_range (size0 tokens) m) (seq k n)).
Proof.
  intros Hm n. induction n as [|n IH]; intros k rb s l s' Hn H.
  - simpl in H. injection H as _ <-. exists []. rewrite app_nil_r.
    destruct (is_pipeline_last_stage e); repeat split.
  - simpl in H. unfold bind at 1 in H.
    assert (Hk : k * m < size0 tokens) by (apply num_micro_batches_start; lia).
    set (en := Nat.min (k * m + m) (size0 tokens)) in *.
    assert (Hen : en <= size0 tokens) by (unfold en; lia).
    destruct (ForwardStep._forward_step_helper _ _ _ _ _ s) as [[out|ex] s1] eqn:Hh;
      [|discriminate].
    apply forward_step_helper_effects in Hh
      as (o & inp & tr1 & _ & _ & _ & Ht1 & Hr1 & Hf1 & Hc1).
    unfold_monad. simpl in H.
    set (v := (batch_size_offset (st_ctx s1) + Z.of_nat (en - k * m))%Z) in *.
    set (s2 := {| st_ctx := {| sequence_len_offset := sequence_len_offset (st_ctx s1);
                               batch_size_offset := v |};
                  st_trace := st_trace s1 ++ [EvSetBatchSizeOffset v] |}) in H.
    assert (Hcopy : exists s3 cp,
      cp = (if is_pipeline_last_stage e then [EvCopyLogits (k * m) en] else []) /\
      st_trace s3 = st_trace s2 ++ cp /\
      ForwardStep.micro_batch_loop e tokens pos mask (size0 tokens) m logits (seq (S k) n)
        (if en - k * m =? m then rb else None) s3 = (Ok l, s')).
    { destruct (is_pipeline_last_stage e).
      - destruct (copy_logits logits (k * m) en out s2) as [[u|ex] s3] eqn:Hc;
          [|discriminate].
        apply copy_logits_ok in Hc as [_ Ht3]. exists s3, [EvCopyLogits (k * m) en]. auto.
      - exists s2, []. rewrite app_nil_r. auto. }
    destruct Hcopy as (s3 & cp & Hcp & Ht3 & Hloop).
    apply IH in Hloop as (tr' & Htr' & Hc' & Hf' & Hr'); [|lia].
    exists (tr1 ++ [EvSend (t_shape out); EvSetBatchSizeOffset v] ++ cp ++ tr').
    split.
    { rewrite Htr', Ht3. simpl. rewrite Ht1. rewrite <- !app_assoc. reflexivity. }
    unfold copy_ranges, forward_rows, recv_shapes in *. rewrite !flat_map_app.
    rewrite Hc1, Hf1, Hr1, Hc', Hf', Hr'. subst cp.
    rewrite slice_rows_size0 by lia.
    assert (Hrest : flat_map (fun r => step_recv_shapes e (slice_rows tokens (fst r) (snd r))
              (if range_size r =? m then if en - k * m =? m then rb else None else None))
              (map (micro_batch_range (size0 tokens) m) (seq (S k) n)) =
            flat_map (fun r => step_recv_shapes e (slice_rows tokens (fst r) (snd r))
              (if range_size r =? m then rb else None))
              (map (micro_batch_range (size0 tokens) m) (seq (S k) n))).
    { destruct (Nat.eqb_spec (en - k * m) m) as [Hfull|Hshort]; [reflexivity|].
    destruct n as [|n]; [reflexivity|].
      exfalso. apply Hshort. apply (micro_batch_full_before_last (size0 tokens) m k Hm). lia. }
    rewrite Hrest.
    destruct (is_pipeline_last_stage e); simpl; rewrite ?app_nil_r; repeat split.
Qed.

Lemma with_pipelining_effects : forall e tokens pos mask m rbl s l s',
  ForwardStep._with_pipelining_forward_step e tokens pos mask m rbl s = (Ok l, s') ->
  0 < m /\
  exists tr, st_trace s' = st_trace s ++ tr /\
    copy_ranges tr = (if is_pipeline_last_stage e
                      then micro_batch_plan (size0 tokens) m else []) /\
    forward_rows tr = map range_size (micro_batch_plan (size0 tokens) m) /\
    recv_shapes tr =
      flat_map (fun r => step_recv_shapes e (slice_rows tokens (fst r) (snd r))
                  (if Nat.eqb (range_size r) m
                   then _allocate_recv_buffer e m
                          (match rbl with None => size1 tokens | Some r => r end)
                   else None))
        (micro_batch_plan (size0 tokens) m).
Proof.
  intros e tokens pos mask m rbl s l s' H.
  unfold ForwardStep._with_pipelining_forward_step in H.
  destruct (Nat.eqb_spec m 0) as [->|Hm]; [discriminate|].
  unfold bind at 1 in H.
  match type of H with
  | context [ForwardStep.micro_batch_loop e tokens pos mask ?B ?mb ?lg ?ix ?rb s] =>
      destruct (ForwardStep.micro_batch_loop e tokens pos mask B mb lg ix rb s)
        as [[l1|ex] s1] eqn:Hl; [|discriminate]
  end.
  apply micro_batch_loop_effects in Hl as (tr & Htr & Hc & Hf & Hr); [|lia|lia].
  unfold_monad. simpl in H. injection H as _ <-.
  split; [lia|].
  exists (tr ++ [EvSetSequenceLenOffset (sequence_len_offset (st_ctx s1) +
                   Z.of_nat (size1 tokens))%Z; EvSetBatchSizeOffset 0%Z]).
  split; [simpl; rewrite Htr, <- !app_assoc; reflexivity|].
  unfold copy_ranges, forward_rows, recv_shapes in *. rewrite !flat_map_app.
  rewrite Hc, Hf, Hr. simpl. rewrite !app_nil_r. auto.
Qed.

Lemma no_pipelining_effects : forall e tokens pos mask rb s l s',
  ForwardStep._no_pipelining_forward_step e tokens pos mask rb s = (Ok l, s') ->
  exists o inp tr,
    model_forward e inp (st_ctx s) tokens pos mask = Some o /\
    (is_pipeline_first_stage e = true -> inp = None) /\
    l = (if is_pipeline_last_stage e
         then Some (match o with OutTensor t => t | OutTuple t _ => t end) else None) /\
    st_trace s' = st_trace s ++ tr /\
    recv_shapes tr = step_recv_shapes e tokens rb.
Proof.
  intros e tokens pos mask rb s l s' H.
  unfold ForwardStep._no_pipelining_forward_step in H. unfold bind at 1 in H.
  destruct (ForwardStep._forward_step_helper e tokens pos mask rb s)
    as [[out|ex] s1] eqn:Hh; [|discriminate].
  apply forward_step_helper_effects in Hh
    as (o & inp & tr & Hmo & Hout & Hfirst & Ht1 & Hr1 & _ & _).
  unfold_monad. simpl in H. injection H as <- <-.
  exists o, inp, (tr ++ [EvSend (t_shape out);
                  EvSetSequenceLenOffset (sequence_len_offset (st_ctx s1) +
                                          Z.of_nat (size1 tokens))%Z]).
  split; [exact Hmo|]. split; [exact Hfirst|]. split; [subst out; reflexivity|].
  split; [simpl; rewrite Ht1, <- !app_assoc; reflexivity|].
  unfold recv_shapes in *. rewrite flat_map_app, Hr1. simpl. apply app_nil_r.
Qed.


Lemma flat_map_nils : forall (A B : Type) (f : A -> list B) l,
  (forall x, In x l -> f x = []) -> flat_map f l = [].
Proof.
  intros A B f l H. induction l as [|x l IH]; [reflexivity|].
  simpl. rewrite H by (left; reflexivity). apply IH. intros y Hy. apply H. right. exact Hy.
Qed.


Lemma plan_length : forall B m,
  length (micro_batch_plan B m) = ForwardStep.num_micro_batches B m.
Proof. intros B m. unfold micro_batch_plan. rewrite length_map, length_seq. reflexivity. Qed.

Lemma plan_nth : forall B m i, i < ForwardStep.num_micro_batches B m ->
  nth i (micro_batch_plan B m) (0, 0) = micro_batch_range B m i.
Proof.
  intros B m i Hi. unfold micro_batch_plan.
  rewrite (nth_indep _ (0, 0) (micro_batch_range B m 0))
    by (rewrite length_map, length_seq; exact Hi).
  rewrite map_nth, seq_nth by exact Hi. reflexivity.
Qed.

(** ** Properties of the code beyond the claims *)

(** The micro-batch count of [_with_pipelining_forward_step], computed
    with [divmod] and a round-up on a non-zero remainder, is the ceiling
    [(batch_size + micro_batch_size - 1) // micro_batch_size]. *)
Theorem num_micro_batches_ceil : forall B m, 0 < m ->
  ForwardStep.num_micro_batches B m = (B + m - 1) / m.
Proof.
  intros B m Hm. unfold ForwardStep.num_micro_batches.
  pose proof (Nat.div_mod_eq B m) as HB. pose proof (Nat.mod_upper_bound B m ltac:(lia)) as Hr.
  destruct (0 <? B mod m) eqn:E; [apply Nat.ltb_lt in E | apply Nat.ltb_ge in E].
  - apply (Nat.div_unique _ _ _ (B mod m - 1)); nia.
  - apply (Nat.div_unique _ _ _ (m - 1)); nia.
Qed.

Lemma num_micro_batches_ceil_witness :
  0 < 4 /\ ForwardStep.num_micro_batches 10 4 = (10 + 4 - 1) / 4.
Proof. split; [lia | apply num_micro_batches_ceil; lia]. Defined.

(** In the micro-batch loop, every micro-batch but the last has exactly
    [micro_batch_size] rows; for a non-empty batch the last one has
    [batch_size mod micro_batch_size] rows, or a full [micro_batch_size]
    when that remainder is 0. *)
Theorem micro_batch_sizes : forall B m, 0 < m ->
  let plan := micro_batch_plan B m in
  (forall i, S i < length plan -> range_size (nth i plan (0, 0)) = m) /\
  (0 < B -> range_size (nth (length plan - 1) plan (0, 0)) =
              (if Nat.eqb (B mod m) 0 then m else B mod m)).
Proof.
  intros B m Hm plan. unfold plan. rewrite plan_length. split.
  - intros i Hi. rewrite plan_nth by lia. apply micro_batch_full_before_last; assumption.
  - intros HB0.
    assert (Hn : 0 < ForwardStep.num_micro_batches B m).
    { pose proof (num_micro_batches_cover B m Hm). nia. }
    rewrite plan_nth by lia.
    pose proof (num_micro_batches_cover B m Hm) as Hc.
    pose proof (num_micro_batches_start B m (ForwardStep.num_micro_batches B m - 1) Hm
                  ltac:(lia)) as Hs.
    unfold range_size, micro_batch_range. simpl.
    unfold ForwardStep.num_micro_batches in *.
    pose proof (Nat.div_mod_eq B m) as HB. pose proof (Nat.mod_upper_bound B m ltac:(lia)) as Hr.
    destruct (0 <? B mod m) eqn:E; [apply Nat.ltb_lt in E | apply Nat.ltb_ge in E];
      destruct (Nat.eqb_spec (B mod m) 0); try lia.
    all: first [ replace (S (B / m) - 1) with (B / m) by lia; nia
               | assert (1 <= B / m) by nia;
                 replace ((B / m - 1) * m) with (B / m * m - m) by nia; nia ].
Qed.

Lemma micro_batch_sizes_witness :
  0 < 4 /\ 0 < 10 /\
  range_size (nth (length (micro_batch_plan 10 4) - 1) (micro_batch_plan 10 4) (0, 0)) = 2.
Proof.
  split; [lia|]. split; [lia|].
  exact (proj2 (micro_batch_sizes 10 4 ltac:(lia)) ltac:(lia)).
Defined.

(** When [__call__] takes the chunked path with [seq_len >= 1], its
    micro-batch size [max(1, threshold // seq_len)] is at most
    [max(1, tokens.size(0))], and a micro-batch of more than one row
    keeps [micro_batch_size * seq_len] within the threshold. *)
Theorem call_micro_batch_size_bounds : forall e tokens pos mask rbl,
  let seq_len := match rbl with None => size1 tokens | Some r => r end in
  let threshold := inference_batch_times_seqlen_threshold (args e) in
  1 < pipeline_model_parallel_size (args e) ->
  threshold <> (-1)%Z ->
  (threshold <= Z.of_nat (size0 tokens) * Z.of_nat seq_len)%Z ->
  0 < seq_len ->
  exists m, 1 <= m <= Nat.max 1 (size0 tokens) /\
    (m = 1 \/ (Z.of_nat m * Z.of_nat seq_len <= threshold)%Z) /\
    forall s, ForwardStep.call e tokens pos mask rbl s =
              ForwardStep._with_pipelining_forward_step e tokens pos mask m rbl s.
Proof.
  intros e tokens pos mask rbl seq_len threshold Hpp Hthr Hle Hseq.
  unfold ForwardStep.call, ForwardStep.pipeline_size_larger_than_one,
    ForwardStep.pipelining_batch_x_seqlen, py_floordiv.
  fold threshold seq_len.
  apply Nat.ltb_lt in Hpp. apply Z.eqb_neq in Hthr. apply Z.leb_le in Hle.
  rewrite Hpp, Hthr, Hle. cbn [andb negb].
  destruct (Z.eqb_spec (Z.of_nat seq_len) 0) as [Hz|_]; [lia|].
  exists (Z.to_nat (Z.max 1 (threshold / Z.of_nat seq_len))).
  assert (Hq : (threshold / Z.of_nat seq_len <= Z.of_nat (size0 tokens))%Z)
    by (apply Z.div_le_upper_bound; lia).
  assert (Hqm : (Z.of_nat seq_len * (threshold / Z.of_nat seq_len) <= threshold)%Z)
    by (apply Z.mul_div_le; lia).
  split; [lia|]. split; [|intros s; reflexivity].
  destruct (Z.le_gt_cases (threshold / Z.of_nat seq_len) 1); [left; lia | right; lia].
Qed.

Lemma call_micro_batch_size_bounds_witness :
  exists m, 1 <= m <= Nat.max 1 10 /\ (m = 1 \/ (Z.of_nat m * 2 <= 8)%Z) /\
    forall s, ForwardStep.call (sample_env false true 2 8) (sample_tokens 10 2)
                (sample_tokens 10 2) sample_mask None s =
              ForwardStep._with_pipelining_forward_step (sample_env false true 2 8)
                (sample_tokens 10 2) (sample_tokens 10 2) sample_mask m None s.
Proof.
  exact (call_micro_batch_size_bounds (sample_env false true 2 8) (sample_tokens 10 2)
           (sample_tokens 10 2) sample_mask None ltac:(simpl; lia) ltac:(discriminate)
           ltac:(simpl; lia) ltac:(simpl; lia)).
Defined.




Lemma call_unchunked : forall e tokens pos mask rbl,
  (pipeline_model_parallel_size (args e) <= 1 \/
   inference_batch_times_seqlen_threshold (args e) = (-1)%Z) ->
  forall s, ForwardStep.call e tokens pos mask rbl s =
    ForwardStep._no_pipelining_forward_step e tokens pos mask
      (match rbl with None => None | Some r => _allocate_recv_buffer e (size0 tokens) r end) s.
Proof.
  intros e tokens pos mask rbl Hc s.
  unfold ForwardStep.call, ForwardStep.pipeline_size_larger_than_one,
    ForwardStep.pipelining_batch_x_seqlen.
  replace (Nat.ltb 1 (pipeline_model_parallel_size (args e)) &&
           negb (Z.eqb (inference_batch_times_seqlen_threshold (args e)) (-1)))
    with false; [reflexivity|].
  destruct Hc as [Hp | Ht].
  - apply Nat.ltb_ge in Hp. rewrite Hp. reflexivity.
  - rewrite Ht. rewrite andb_false_r. reflexivity.
Qed.



(** On the first pipeline stage, a call of [__call__] that completes
    performs no receive from a previous stage, on either path and whatever
    [recv_buffer_seq_length] is. *)
Theorem call_first_stage_never_receives : forall e tokens pos mask rbl s l s',
  is_pipeline_first_stage e = true ->
  ForwardStep.call e tokens pos mask rbl s = (Ok l, s') ->
  exists tr, st_trace s' = st_trace s ++ tr /\ recv_shapes tr = [].
Proof.
  intros e tokens pos mask rbl s l s' Hf H.
  destruct (call_cases e tokens pos mask rbl) as [[m [_ Hc]] | [Hc | Hc]];
    rewrite Hc in H.
  - apply with_pipelining_effects in H as (_ & tr & Htr & _ & _ & Hr).
    exists tr. split; [exact Htr|]. rewrite Hr. apply flat_map_nils.
    intros r _. unfold step_recv_shapes, _allocate_recv_buffer. rewrite Hf.
    destruct (Nat.eqb _ _); reflexivity.
  - apply no_pipelining_effects in H as (_ & _ & tr & _ & _ & _ & Htr & Hr).
    exists tr. split; [exact Htr|]. rewrite Hr.
    unfold step_recv_shapes, _allocate_recv_buffer. rewrite Hf.
    destruct rbl; reflexivity.
  - discriminate.
Qed.

Lemma call_first_stage_never_receives_witness :
  is_pipeline_first_stage (sample_env true false 2 8) = true /\
  exists tr, st_trace (snd (ForwardStep.call (sample_env true false 2 8)
      (sample_tokens 10 2) (sample_tokens 10 2) sample_mask (Some 3) sample_state)) = [] ++ tr /\
    recv_shapes tr = [].
Proof.
  split; [reflexivity|].
  destruct (ForwardStep.call (sample_env true false 2 8) (sample_tokens 10 2)
              (sample_tokens 10 2) sample_mask (Some 3) sample_state) as [r s'] eqn:H.
  destruct r as [l|ex]; [|vm_compute in H; discriminate].
  exact (call_first_stage_never_receives (sample_env true false 2 8) _ _ _ _ _ _ _ eq_refl H).
Defined.

(** On the unchunked path (a single pipeline stage, or the threshold
    [-1]) and a stage other than the first, a call that completes receives
    at most once, into a buffer of shape [(seq_len, tokens.size(0),
    hidden_size)] with [seq_len] the [recv_buffer_seq_length] override or
    else [tokens.size(1)]; the receive is skipped exactly when that buffer
    is empty. *)
Theorem unchunked_recv_buffer_shape : forall e tokens pos mask rbl s l s',
  let seq_len := match rbl with None => size1 tokens | Some r => r end in
  is_pipeline_first_stage e = false ->
  (pipeline_model_parallel_size (args e) <= 1 \/
   inference_batch_times_seqlen_threshold (args e) = (-1)%Z) ->
  ForwardStep.call e tokens pos mask rbl s = (Ok l, s') ->
  exists tr, st_trace s' = st_trace s ++ tr /\
    recv_shapes tr =
      (if Nat.ltb 0 (seq_len * size0 tokens * hidden_size (args e))
       then [[seq_len; size0 tokens; hidden_size (args e)]] else []).
Proof.
  intros e tokens pos mask rbl s l s'. cbv zeta. intros Hf Hc H.
  rewrite (call_unchunked e tokens pos mask rbl Hc s) in H.
  apply no_pipelining_effects in H as (_ & _ & tr & _ & _ & _ & Htr & Hr).
  exists tr. split; [exact Htr|]. rewrite Hr.
  unfold step_recv_shapes, _allocate_recv_buffer. rewrite Hf.
  destruct rbl; unfold numel; simpl fold_right; rewrite Nat.mul_1_r, Nat.mul_assoc;
    reflexivity.
Qed.

Lemma unchunked_recv_buffer_shape_witness :
  is_pipeline_first_stage (sample_env false true 2 (-1)) = false /\
  exists tr, st_trace (snd (ForwardStep.call (sample_env false true 2 (-1))
      (sample_tokens 10 2) (sample_tokens 10 2) sample_mask (Some 3) sample_state)) = [] ++ tr /\
    recv_shapes tr = [[3; 10; 8]].
Proof.
  split; [reflexivity|].
  destruct (ForwardStep.call (sample_env false true 2 (-1)) (sample_tokens 10 2)
              (sample_tokens 10 2) sample_mask (Some 3) sample_state) as [r s'] eqn:H.
  destruct r as [l|ex]; [|vm_compute in H; discriminate].
  exact (unchunked_recv_buffer_shape (sample_env false true 2 (-1)) _ _ _ _ _ _ _
           eq_refl (or_intror eq_refl) H).
Defined.

(** On the unchunked path (a single pipeline stage, or the threshold
    [-1]), a call that completes has run the model once on the whole
    batch under the inference context it was entered with (with no input
    tensor on the first stage), and returns, on the last stage, the first
    element of the model's output (the output itself when it is not a
    tuple), and [None] elsewhere. *)
Theorem unchunked_call_output : forall e tokens pos mask rbl s l s',
  (pipeline_model_parallel_size (args e) <= 1 \/
   inference_batch_times_seqlen_threshold (args e) = (-1)%Z) ->
  ForwardStep.call e tokens pos mask rbl s = (Ok l, s') ->
  exists o inp, model_forward e inp (st_ctx s) tokens pos mask = Some o /\
    (is_pipeline_first_stage e = true -> inp = None) /\
    l = (if is_pipeline_last_stage e
         then Some (match o with OutTensor t => t | OutTuple t _ => t end) else None).
Proof.
  intros e tokens pos mask rbl s l s' Hc H.
  rewrite (call_unchunked e tokens pos mask rbl Hc s) in H.
  apply no_pipelining_effects in H as (o & inp & tr & Hmo & Hinp & Hl & _).
  exists o, inp. auto.
Qed.

Lemma unchunked_call_output_witness :
  fst (ForwardStep.call (sample_env true true 1 8) (sample_tokens 10 2)
         (sample_tokens 10 2) sample_mask None sample_state)
    = Ok (Some (mkTensor [10; 2; 16] torch_float32)).
Proof.
  destruct (ForwardStep.call (sample_env true true 1 8) (sample_tokens 10 2)
              (sample_tokens 10 2) sample_mask None sample_state) as [r s'] eqn:H.
  destruct r as [l|ex]; [|vm_compute in H; discriminate].
  apply (unchunked_call_output (sample_env true true 1 8)) in H
    as (o & inp & Hmo & _ & Hl); [|left; simpl; lia].
  simpl in Hmo. injection Hmo as <-. simpl in Hl. subst l. reflexivity.
Defined.

(** With more than one pipeline stage and a threshold [<= 0] other than
    [-1], a call on an empty batch ([tokens.size(0) = 0], [seq_len >= 1])
    takes the chunked path with zero micro-batches: it runs no forward
    pass, sends and receives nothing, and only advances
    [sequence_len_offset] by [tokens.size(1)] and resets
    [batch_size_offset] to 0; the last stage returns an empty
    [(0, seq_len, padded_vocab_size)] float32 logits buffer. *)
Theorem call_empty_batch_chunked : forall e tokens pos mask rbl s,
  let seq_len := match rbl with None => size1 tokens | Some r => r end in
  size0 tokens = 0 ->
  1 < pipeline_model_parallel_size (args e) ->
  inference_batch_times_seqlen_threshold (args e) <> (-1)%Z ->
  (inference_batch_times_seqlen_threshold (args e) <= 0)%Z ->
  0 < seq_len ->
  ForwardStep.call e tokens pos mask rbl s =
    (Ok (if is_pipeline_last_stage e
         then Some (torch_empty [0; seq_len; padded_vocab_size (args e)] torch_float32)
         else None),
     mkState (mkContext (sequence_len_offset (st_ctx s) + Z.of_nat (size1 tokens))%Z 0%Z)
       (st_trace s ++
          [EvSetSequenceLenOffset (sequence_len_offset (st_ctx s) + Z.of_nat (size1 tokens))%Z;
           EvSetBatchSizeOffset 0%Z])).
Proof.
  intros e tokens pos mask rbl s seq_len Hb Hpp Hthr Hle Hseq.
  assert (Hc : ForwardStep.call e tokens pos mask rbl s =
               ForwardStep._with_pipelining_forward_step e tokens pos mask 1 rbl s).
  { unfold ForwardStep.call, ForwardStep.pipeline_size_larger_than_one,
      ForwardStep.pipelining_batch_x_seqlen, py_floordiv.
    fold seq_len.
    apply Nat.ltb_lt in Hpp. apply Z.eqb_neq in Hthr.
    rewrite Hpp, Hthr, Hb. cbn [andb negb].
    replace (Z.leb _ (Z.of_nat 0 * Z.of_nat seq_len)) with true
      by (symmetry; apply Z.leb_le; lia).
    destruct (Z.eqb_spec (Z.of_nat seq_len) 0) as [Hz|_]; [lia|].
    unfold bind, ret.
    replace (Z.to_nat (Z.max 1 (inference_batch_times_seqlen_threshold (args e) /
                                  Z.of_nat seq_len))) with 1; [reflexivity|].
    assert (inference_batch_times_seqlen_threshold (args e) / Z.of_nat seq_len <= 0)%Z
      by (apply Z.div_le_upper_bound; lia).
    lia. }
  rewrite Hc. unfold ForwardStep._with_pipelining_forward_step. fold seq_len.
  rewrite Hb. unfold_monad. destruct s as [c tr]. simpl.
  rewrite <- app_assoc. reflexivity.
Qed.

Lemma call_empty_batch_chunked_witness :
  ForwardStep.call (sample_env false true 2 0) (sample_tokens 0 3) (sample_tokens 0 3)
    sample_mask None sample_state =
  (Ok (Some (torch_empty [0; 3; 16] torch_float32)),
   mkState (mkContext 3 0) [EvSetSequenceLenOffset 3%Z; EvSetBatchSizeOffset 0%Z]).
Proof.
  exact (call_empty_batch_chunked (sample_env false true 2 0) (sample_tokens 0 3)
           (sample_tokens 0 3) sample_mask None sample_state
           eq_refl ltac:(simpl; lia) ltac:(discriminate) ltac:(simpl; lia) ltac:(simpl; lia)).
Defined.




Section WellBehavedStage.

Variable e : env.
Hypothesis model_shape : forall inp c tk ps mk,
  model_forward e inp c tk ps mk =
  Some (OutTensor (mkTensor [size0 tk; size1 tk; padded_vocab_size (args e)] torch_float32)).
Hypothesis recv_ok : forall b, recv_from_prev_pipeline_rank_ e b = Some b.
Hypothesis send_ok : forall t, send_to_next_pipeline_rank e t = true.


End WellBehavedStage.


